(** * react-zod-multistep-form: the [useMultiStepForm] hook

    A shallow embedding of [src/hooks/useMultiStepForm.ts] and the
    properties of its step navigation.

    The hook keeps one piece of React state, the current step index, and
    wraps a react-hook-form instance.  The embedding makes the two stores
    explicit: a [World] holds the [useState] cell and the form engine, and
    the callbacks the hook returns are computations over it.  A callback
    is a closure: [goToNextStep] reads the [currentStepIndex] of the render
    that created it, while the updater it hands to [setCurrentStepIndex]
    receives the value the state cell holds when it is applied.

    The repository carries an earlier variant of the same hook that names
    the callbacks [next] and [back] and the component [CurrentStepComponent];
    its code is the same line for line, and what is proved here holds for
    it as well.

    The state is a JavaScript [number], a binary64 float, that the hook
    only ever initialises to 0, increments and decrements; a caller of
    [setCurrentStepIndex] is taken to pass an integer, so the index is a
    [Z].  On the safe integers ([Number.isSafeInteger]) the [+ 1] and [- 1]
    of the source are the exact ones of [Z]; beyond them the source rounds
    (an odd sum falls on a neighbouring even number), so every statement
    about what a callback computes from an arbitrary value of the state
    cell is made for safe integers.  Indices in range are safe: an array
    holds fewer than [2 ^ 32] elements. *)

From Stdlib Require Import ZArith List Bool Lia.
Import ListNotations.
Open Scope Z_scope.

(** ** JavaScript completions *)

(** Reading a property of [undefined] is the only exception the hook's own
    code can raise. *)
Inductive JsError : Type :=
| TypeError.

(** How a call ends: it returns a value, or it throws (for the [async]
    callback: its promise is fulfilled, or rejected). *)
Inductive Completion (A : Type) : Type :=
| Normal (a : A)
| Threw (e : JsError).

Arguments Normal {A} a.
Arguments Threw {A} e.

(** [Number.MAX_SAFE_INTEGER]. *)
Definition MAX_SAFE_INTEGER : Z := 2 ^ 53 - 1.

(** [Number.isSafeInteger], on integers: between the two bounds every
    integer is a [number] and so are its successor and predecessor. *)
Definition isSafeInteger (i : Z) : Prop :=
  - MAX_SAFE_INTEGER <= i <= MAX_SAFE_INTEGER.

(** [SetStateAction<number>]: the setter takes a value or an updater. *)
Inductive SetStateAction : Type :=
| Value (v : Z)
| Updater (f : Z -> Z).

Section Hook.

(** [React.FC<...>], [Path<FormData>] and the state of the [useForm]
    instance are opaque to the hook. *)
Context {Component Path Engine : Type}.

(** [FormStep<FormData>]. *)
Record FormStep : Type := mkStep {
  component : Component;
  fields : list Path
}.

(** [steps.length], a JavaScript number. *)
Definition steps_length (steps : list FormStep) : Z :=
  Z.of_nat (length steps).

(** [steps[i]]: [undefined] (here [None]) unless [0 <= i < steps.length]. *)
Definition steps_at (steps : list FormStep) (i : Z) : option FormStep :=
  if i <? 0 then None else nth_error steps (Z.to_nat i).

(** [trigger(names)] of react-hook-form: validates the named fields against
    the current values, records their errors in the form state and resolves
    to whether they are all valid. *)
Variable trigger : list Path -> Engine -> bool * Engine.

(** The stores a mounted form lives in: the [useState] cell, the form
    engine, and the history of [trigger] calls made so far (each with the
    field names it was given and the answer it resolved to). *)
Record World : Type := mkWorld {
  stepState : Z;
  formState : Engine;
  triggerLog : list (list Path * bool)
}.

(** Computations over the stores.  A throw keeps the stores as they are at
    that point. *)
Definition M (A : Type) : Type := World -> Completion A * World.

Definition ret {A : Type} (a : A) : M A :=
  fun w => (Normal a, w).

Definition bind {A B : Type} (m : M A) (k : A -> M B) : M B :=
  fun w =>
    match m w with
    | (Normal a, w') => k a w'
    | (Threw e, w') => (Threw e, w')
    end.

Definition throw {A : Type} (e : JsError) : M A :=
  fun w => (Threw e, w).

Notation "x <- m ;; k" := (bind m (fun x => k))
  (at level 61, m at next level, right associativity).

(** [o.p] where [o] may be [undefined]. *)
Definition prop_of {A : Type} (o : option FormStep) (p : FormStep -> A) : M A :=
  match o with
  | Some s => ret (p s)
  | None => throw TypeError
  end.

(** [await trigger(names)]. *)
Definition await_trigger (names : list Path) : M bool :=
  fun w =>
    let (isValid, engine') := trigger names (formState w) in
    (Normal isValid,
     mkWorld (stepState w) engine' (triggerLog w ++ [(names, isValid)])).

(** The setter [useState] returns. *)
Definition setState (action : SetStateAction) : M unit :=
  fun w =>
    let next :=
      match action with
      | Value v => v
      | Updater f => f (stepState w)
      end in
    (Normal tt, mkWorld next (formState w) (triggerLog w)).

(** The updater of [goToNextStep] (lines 53-56).  The sum is the source's
    for a safe integer [prevStep]. *)
Definition next_updater (steps : list FormStep) (prevStep : Z) : Z :=
  if prevStep >=? steps_length steps - 1 then prevStep else prevStep + 1.

(** The updater of [goToPreviousStep] (lines 60-63).  The difference is the
    source's for a safe integer [prevStep]. *)
Definition previous_updater (prevStep : Z) : Z :=
  if prevStep <=? 0 then prevStep else prevStep - 1.

(** The object the hook returns (the form-engine capabilities it passes
    through unchanged are left out). *)
Record HookResult : Type := mkResult {
  CurrentStep : Component;
  currentStepIndex : Z;
  setCurrentStepIndex : SetStateAction -> M unit;
  goToNextStep : M unit;
  goToPreviousStep : M unit;
  isFirstStep : bool;
  isLastStep : bool
}.

(** One evaluation of the hook with the state cell holding
    [currentStepIndex] (lines 36-82). *)
Definition useMultiStepForm (steps : list FormStep) (currentStepIndex : Z)
  : Completion HookResult :=
  let goToNextStep : M unit :=
    names <- prop_of (steps_at steps currentStepIndex) fields ;;
    isValid <- await_trigger names ;;
    if negb isValid then ret tt
    else setState (Updater (next_updater steps)) in
  let goToPreviousStep : M unit :=
    setState (Updater previous_updater) in
  match steps_at steps currentStepIndex with
  | None => Threw TypeError
  | Some step =>
      let CurrentStep := component step in
      let isFirstStep := currentStepIndex <=? 0 in
      let isLastStep := currentStepIndex >=? steps_length steps - 1 in
      Normal (mkResult CurrentStep currentStepIndex setState
                goToNextStep goToPreviousStep isFirstStep isLastStep)
  end.

(** ** Using a mounted form *)

(** What a caller can do with the returned object. *)
Inductive Call : Type :=
| Advance
| Retreat
| JumpTo (index : Z).

Definition invoke (h : HookResult) (c : Call) : M unit :=
  match c with
  | Advance => goToNextStep h
  | Retreat => goToPreviousStep h
  | JumpTo index => setCurrentStepIndex h (Value index)
  end.

(** An event handler: calls made one after the other on the object of one
    render, each awaited before the next is made. *)
Fixpoint handler (h : HookResult) (calls : list Call) : M unit :=
  match calls with
  | [] => ret tt
  | c :: calls' => _ <- invoke h c ;; handler h calls'
  end.

(** React re-evaluates the hook with the state the last handler left, and
    the next handler runs on the fresh object.  A render that throws ends
    the session. *)
Fixpoint session (steps : list FormStep) (handlers : list (list Call)) : M unit :=
  fun w =>
    match handlers with
    | [] => ret tt w
    | calls :: handlers' =>
        match useMultiStepForm steps (stepState w) with
        | Threw e => (Threw e, w)
        | Normal h => (_ <- handler h calls ;; session steps handlers') w
        end
    end.

(** One call per render. *)
Definition one_by_one (calls : list Call) : list (list Call) :=
  map (fun c => [c]) calls.

Definition count_advance (calls : list Call) : nat :=
  length (filter (fun c => match c with Advance => true | _ => false end) calls).

(** The state a freshly mounted form starts in: [useState(0)]. *)
Definition mount (engine : Engine) : World :=
  mkWorld 0 engine [].

(** The navigator's range invariant. *)
Definition in_range (steps : list FormStep) (i : Z) : Prop :=
  0 <= i < steps_length steps.

(** Every index a handler passes to [setCurrentStepIndex] is in range. *)
Definition jumps_in_range (steps : list FormStep) (calls : list Call) : bool :=
  forallb
    (fun c =>
       match c with
       | JumpTo index => (0 <=? index) && (index <? steps_length steps)
       | _ => true
       end)
    calls.

(** Every validation on record succeeded. *)
Definition all_valid (log : list (list Path * bool)) : bool :=
  forallb snd log.

(** No call of the list goes through [setCurrentStepIndex]. *)
Definition no_jump (calls : list Call) : bool :=
  forallb (fun c => match c with JumpTo _ => false | _ => true end) calls.

(** The fields of every step before [i] have a successful validation on
    record. *)
Definition validated_before (steps : list FormStep) (i : Z)
  (log : list (list Path * bool)) : Prop :=
  forall j, 0 <= j < i ->
    exists step, steps_at steps j = Some step /\ In (fields step, true) log.

End Hook.

Arguments FormStep : clear implicits.
Arguments World : clear implicits.
Arguments HookResult : clear implicits.
Arguments M : clear implicits.

(** ** A concrete form

    The form of the README: a name of at least two characters and an age of
    at least eighteen, one field per step, followed by a step that owns no
    field. *)

Module Demo.

Inductive Field : Type :=
| name
| age.

Inductive View : Type :=
| NameStep
| AgeStep
| ReviewStep.

Definition Field_eqb (a b : Field) : bool :=
  match a, b with
  | name, name | age, age => true
  | _, _ => false
  end.

(** The form engine: the current values and the fields in error. *)
Record Form : Type := mkForm {
  name_length : Z;
  age_value : Z;
  errors : list Field
}.

(** [z.string().min(2)] and [z.number().min(18)] (the schema only looks at
    the length of the name). *)
Definition schema (f : Field) (form : Form) : bool :=
  match f with
  | name => 2 <=? name_length form
  | age => 18 <=? age_value form
  end.

Definition trigger (names : list Field) (form : Form) : bool * Form :=
  let failing := filter (fun f => negb (schema f form)) names in
  let kept := filter (fun f => negb (existsb (Field_eqb f) names)) (errors form) in
  (match failing with [] => true | _ => false end,
   mkForm (name_length form) (age_value form) (kept ++ failing)).

Definition two_steps : list (FormStep View Field) :=
  [mkStep NameStep [name]; mkStep AgeStep [age]].

Definition three_steps : list (FormStep View Field) :=
  two_steps ++ [mkStep ReviewStep []].

(** [initialValues = { name: "", age: 0 }]. *)
Definition initialValues : Form := mkForm 0 0 [].

(** The form after the user typed a two-letter name and the age 30. *)
Definition filled : Form := mkForm 2 30 [].

End Demo.

(** * Properties *)

Section Navigation.

Context {Component Path Engine : Type}.
Variable trigger : list Path -> Engine -> bool * Engine.

Local Abbreviation Step := (FormStep Component Path).
Local Abbreviation Result := (HookResult Component Path Engine).
Local Abbreviation Store := (World Path Engine).
Local Abbreviation mounted := (mount (Path := Path)).

Implicit Types (steps : list Step) (h : Result) (w : Store) (i c k : Z).

(** ** Array reads *)

Lemma steps_at_in_range steps i :
  in_range steps i -> exists step, steps_at steps i = Some step.
Proof.
  unfold in_range, steps_length, steps_at. intros [Hlo Hhi].
  destruct (i <? 0) eqn:Hneg; [lia|].
  destruct (nth_error steps (Z.to_nat i)) as [step|] eqn:Hnth.
  - now exists step.
  - apply nth_error_None in Hnth. lia.
Qed.

Lemma steps_at_out_of_range steps i :
  ~ in_range steps i -> steps_at steps i = None.
Proof.
  unfold in_range, steps_length, steps_at. intros Hout.
  destruct (i <? 0) eqn:Hneg; [reflexivity|].
  apply nth_error_None. lia.
Qed.

Lemma steps_at_Some_in_range steps i step :
  steps_at steps i = Some step -> in_range steps i.
Proof.
  intros Hat. destruct (Z_lt_dec i 0) as [Hneg|Hpos].
  - unfold steps_at in Hat. apply Z.ltb_lt in Hneg. now rewrite Hneg in Hat.
  - destruct (Z_lt_dec i (steps_length steps)) as [Hlt|Hge].
    + unfold in_range. lia.
    + rewrite steps_at_out_of_range in Hat; [discriminate|].
      unfold in_range. lia.
Qed.

(** ** What a render returns *)

Lemma render_inv steps c h :
  useMultiStepForm trigger steps c = Normal h ->
  exists step,
    steps_at steps c = Some step /\
    CurrentStep h = component step /\
    currentStepIndex h = c /\
    isFirstStep h = (c <=? 0) /\
    isLastStep h = (c >=? steps_length steps - 1) /\
    (forall action w,
        setCurrentStepIndex h action w = setState action w) /\
    (forall w,
        goToPreviousStep h w =
        (Normal tt,
         mkWorld (previous_updater (stepState w)) (formState w) (triggerLog w))) /\
    (forall w,
        goToNextStep h w =
        (Normal tt,
         let isValid := fst (trigger (fields step) (formState w)) in
         mkWorld (if isValid then next_updater steps (stepState w) else stepState w)
                 (snd (trigger (fields step) (formState w)))
                 (triggerLog w ++ [(fields step, isValid)]))).
Proof.
  unfold useMultiStepForm. intros Hrender.
  destruct (steps_at steps c) as [step|] eqn:Hat; [|discriminate].
  injection Hrender as <-. exists step. cbn.
  repeat split.
  intros w. unfold bind, prop_of, ret, await_trigger.
  destruct (trigger (fields step) (formState w)) as [isValid engine'].
  now destruct isValid.
Qed.

Lemma render_in_range steps c :
  in_range steps c -> exists h, useMultiStepForm trigger steps c = Normal h.
Proof.
  intros Hin. destruct (steps_at_in_range steps c Hin) as [step Hat].
  unfold useMultiStepForm. rewrite Hat. eauto.
Qed.

Lemma next_updater_in_range steps i :
  in_range steps i -> in_range steps (next_updater steps i).
Proof.
  unfold in_range, next_updater. intros Hin.
  destruct (i >=? steps_length steps - 1) eqn:Hlast; lia.
Qed.

Lemma previous_updater_in_range steps i :
  in_range steps i -> in_range steps (previous_updater i).
Proof.
  unfold in_range, previous_updater. intros Hin.
  destruct (i <=? 0) eqn:Hfirst; lia.
Qed.

(** ** The two updaters against the spec's formulas *)

Lemma next_updater_min steps i :
  i <= steps_length steps - 1 ->
  next_updater steps i = Z.min (i + 1) (steps_length steps - 1).
Proof.
  unfold next_updater. intros Hle.
  destruct (i >=? steps_length steps - 1) eqn:Hlast; lia.
Qed.

Lemma next_updater_beyond steps i :
  steps_length steps - 1 < i -> next_updater steps i = i.
Proof.
  unfold next_updater. intros Hgt.
  destruct (i >=? steps_length steps - 1) eqn:Hlast; lia.
Qed.

Lemma previous_updater_max i :
  0 <= i -> previous_updater i = Z.max (i - 1) 0.
Proof.
  unfold previous_updater. intros Hge.
  destruct (i <=? 0) eqn:Hfirst; lia.
Qed.

Lemma previous_updater_below i :
  i < 0 -> previous_updater i = i.
Proof.
  unfold previous_updater. intros Hlt.
  destruct (i <=? 0) eqn:Hfirst; lia.
Qed.

(** ** Single calls *)

(** C1, as the code has it: when the validation of [goToNextStep] succeeds,
    the state cell goes from [i] to [min (i + 1) (N - 1)] for every safe
    integer [i <= N - 1], and an index beyond [N - 1] is left where it
    is. *)
Theorem advance_success steps c h step w :
  useMultiStepForm trigger steps c = Normal h ->
  steps_at steps c = Some step ->
  fst (trigger (fields step) (formState w)) = true ->
  exists w',
    goToNextStep h w = (Normal tt, w') /\
    (isSafeInteger (stepState w) ->
     stepState w <= steps_length steps - 1 ->
     stepState w' = Z.min (stepState w + 1) (steps_length steps - 1)) /\
    (steps_length steps - 1 < stepState w -> stepState w' = stepState w).
Proof.
  intros Hrender Hat Hvalid.
  destruct (render_inv steps c h Hrender) as (step' & Hat' & _ & _ & _ & _ & _ & _ & Hnext).
  assert (step' = step) as -> by congruence.
  eexists. split; [apply Hnext|]. cbn. rewrite Hvalid.
  split; [intros _; apply next_updater_min | apply next_updater_beyond].
Qed.

(** C2: when the validation of [goToNextStep] fails, the call returns
    normally and the step index is the one it was. *)
Theorem advance_failure_keeps_index steps c h step w :
  useMultiStepForm trigger steps c = Normal h ->
  steps_at steps c = Some step ->
  fst (trigger (fields step) (formState w)) = false ->
  exists w',
    goToNextStep h w = (Normal tt, w') /\
    stepState w' = stepState w.
Proof.
  intros Hrender Hat Hinvalid.
  destruct (render_inv steps c h Hrender) as (step' & Hat' & _ & _ & _ & _ & _ & _ & Hnext).
  assert (step' = step) as -> by congruence.
  eexists. split; [apply Hnext|]. cbn. now rewrite Hinvalid.
Qed.

(** C5, as the code has it: [goToPreviousStep] always returns normally,
    leaves the form engine and the record of validations untouched, takes
    the state cell from [i] to [max (i - 1) 0] for every safe integer
    [i >= 0], and leaves a negative index where it is. *)
Theorem retreat_effect steps c h w :
  useMultiStepForm trigger steps c = Normal h ->
  exists w',
    goToPreviousStep h w = (Normal tt, w') /\
    formState w' = formState w /\
    triggerLog w' = triggerLog w /\
    (isSafeInteger (stepState w) ->
     0 <= stepState w ->
     stepState w' = Z.max (stepState w - 1) 0) /\
    (stepState w < 0 -> stepState w' = stepState w).
Proof.
  intros Hrender.
  destruct (render_inv steps c h Hrender) as (_ & _ & _ & _ & _ & _ & _ & Hprev & _).
  eexists. split; [apply Hprev|]. cbn.
  repeat split; [intros _; apply previous_updater_max | apply previous_updater_below].
Qed.

(** C8: whenever the hook returns, its [isFirstStep] is [currentStepIndex = 0]
    and its [isLastStep] is [currentStepIndex = N - 1], whatever put the
    index into the state cell. *)
Theorem boundary_flags steps i h :
  useMultiStepForm trigger steps i = Normal h ->
  currentStepIndex h = i /\
  isFirstStep h = (i =? 0) /\
  isLastStep h = (i =? steps_length steps - 1).
Proof.
  intros Hrender.
  destruct (render_inv steps i h Hrender)
    as (step & Hat & _ & Hidx & Hfirst & Hlast & _).
  apply steps_at_Some_in_range in Hat. unfold in_range in Hat.
  rewrite Hfirst, Hlast. repeat split; [assumption | |].
  - destruct (i <=? 0) eqn:H1, (i =? 0) eqn:H2; lia.
  - destruct (i >=? steps_length steps - 1) eqn:H1,
             (i =? steps_length steps - 1) eqn:H2; lia.
Qed.

(** C9: [goToPreviousStep] and [setCurrentStepIndex] return normally and
    write the state cell only: the form engine is the one it was and no
    validation is added to the record. *)
Theorem retreat_jump_frame steps c h w k :
  useMultiStepForm trigger steps c = Normal h ->
  goToPreviousStep h w =
    (Normal tt, mkWorld (previous_updater (stepState w)) (formState w) (triggerLog w)) /\
  setCurrentStepIndex h (Value k) w =
    (Normal tt, mkWorld k (formState w) (triggerLog w)).
Proof.
  intros Hrender.
  destruct (render_inv steps c h Hrender) as (_ & _ & _ & _ & _ & _ & Hset & Hprev & _).
  split; [apply Hprev | now rewrite Hset].
Qed.

(** C10: the hook reads [steps[currentStepIndex]] with no check of its own.
    With the index in range the read finds the step, the hook returns its
    component and [goToNextStep] validates its fields; with an empty
    [steps], or any index out of range, the read finds nothing and the
    render ends on the property access. *)
Theorem unchecked_step_lookup steps i :
  (in_range steps i ->
   exists step h,
     steps_at steps i = Some step /\
     useMultiStepForm trigger steps i = Normal h /\
     CurrentStep h = component step /\
     forall w, exists w',
       goToNextStep h w = (Normal tt, w') /\
       exists isValid, triggerLog w' = triggerLog w ++ [(fields step, isValid)]) /\
  (~ in_range steps i ->
   steps_at steps i = None /\ useMultiStepForm trigger steps i = Threw TypeError) /\
  (steps = [] ->
   steps_at steps i = None /\ useMultiStepForm trigger steps i = Threw TypeError).
Proof.
  assert (forall steps' j, ~ in_range steps' j ->
            steps_at steps' j = None /\ useMultiStepForm trigger steps' j = Threw TypeError) as Hout.
  { intros steps' j Hnot. pose proof (steps_at_out_of_range steps' j Hnot) as Hnone.
    split; [assumption|]. unfold useMultiStepForm. now rewrite Hnone. }
  split; [|split].
  - intros Hin. destruct (render_in_range steps i Hin) as [h Hrender].
    destruct (render_inv steps i h Hrender)
      as (step & Hat & Hcur & _ & _ & _ & _ & _ & Hnext).
    exists step, h. repeat split; try assumption.
    intros w. eexists. split; [apply Hnext|]. cbn. eauto.
  - apply Hout.
  - intros ->. apply Hout. unfold in_range, steps_length. cbn. lia.
Qed.

(** ** Handlers and sessions *)

Lemma handler_cons h call calls w :
  handler h (call :: calls) w =
  match invoke h call w with
  | (Normal _, w') => handler h calls w'
  | (Threw e, w') => (Threw e, w')
  end.
Proof. reflexivity. Qed.

Lemma session_cons steps calls handlers w :
  session trigger steps (calls :: handlers) w =
  match useMultiStepForm trigger steps (stepState w) with
  | Threw e => (Threw e, w)
  | Normal h =>
      match handler h calls w with
      | (Normal _, w') => session trigger steps handlers w'
      | (Threw e, w') => (Threw e, w')
      end
  end.
Proof. reflexivity. Qed.

(** A call on the object of a successful render always returns. *)
Lemma invoke_returns steps c h call w :
  useMultiStepForm trigger steps c = Normal h ->
  exists w',
    invoke h call w = (Normal tt, w') /\
    length (triggerLog w') =
      (length (triggerLog w) + count_advance [call])%nat /\
    (in_range steps (stepState w) ->
     jumps_in_range steps [call] = true ->
     in_range steps (stepState w')).
Proof.
  intros Hrender.
  destruct (render_inv steps c h Hrender)
    as (step & _ & _ & _ & _ & _ & Hset & Hprev & Hnext).
  destruct call as [| |index]; cbn [invoke].
  - eexists. split; [apply Hnext|]. cbn. split.
    + rewrite length_app. reflexivity.
    + intros Hin _.
      destruct (fst (trigger (fields step) (formState w)));
        [now apply next_updater_in_range | assumption].
  - eexists. split; [apply Hprev|]. cbn. split; [lia|].
    intros Hin _. now apply previous_updater_in_range.
  - eexists. split; [rewrite Hset; reflexivity|]. cbn. split; [lia|].
    intros _ Hjump. unfold in_range. lia.
Qed.

Lemma count_advance_app calls calls' :
  count_advance (calls ++ calls') =
  (count_advance calls + count_advance calls')%nat.
Proof. unfold count_advance. now rewrite filter_app, length_app. Qed.

Lemma handler_returns steps c h calls :
  useMultiStepForm trigger steps c = Normal h ->
  forall w,
  exists w',
    handler h calls w = (Normal tt, w') /\
    length (triggerLog w') =
      (length (triggerLog w) + count_advance calls)%nat /\
    (in_range steps (stepState w) ->
     jumps_in_range steps calls = true ->
     in_range steps (stepState w')).
Proof.
  intros Hrender. induction calls as [|call calls IH]; intros w.
  - exists w. split; [reflexivity|]. split; [cbn; lia | now intros Hin _].
  - destruct (invoke_returns steps c h call w Hrender) as (w1 & Hcall & Hlog1 & Hinv1).
    destruct (IH w1) as (w' & Hrest & Hlog & Hinv).
    exists w'. rewrite handler_cons, Hcall. split; [assumption|]. split.
    + change (call :: calls) with ([call] ++ calls).
      rewrite count_advance_app. lia.
    + intros Hin Hjumps. cbn [jumps_in_range forallb] in Hjumps.
      apply andb_true_iff in Hjumps as [Hjump Hjumps].
      apply Hinv; [|assumption]. apply Hinv1; [assumption|].
      cbn [jumps_in_range forallb]. now rewrite Hjump.
Qed.


(** C3, as the code has it: the index of a mounted form with at least one
    step starts in range; [goToNextStep] and [goToPreviousStep] keep it in
    range; [setCurrentStepIndex] stores the index it is given, so it keeps
    the range exactly when that index is in range.  A session whose jumps
    are all in range therefore never throws and ends in range. *)
Theorem index_invariant steps engine handlers :
  1 <= steps_length steps ->
  forallb (jumps_in_range steps) handlers = true ->
  in_range steps (stepState (mounted engine)) /\
  (exists w',
      session trigger steps handlers (mounted engine) = (Normal tt, w') /\
      in_range steps (stepState w')) /\
  (forall c h w k,
      useMultiStepForm trigger steps c = Normal h ->
      exists w',
        setCurrentStepIndex h (Value k) w = (Normal tt, w') /\
        stepState w' = k).
Proof.
  intros Hne Hjumps.
  assert (in_range steps (stepState (mounted engine))) as Hstart.
  { unfold in_range. cbn. lia. }
  split; [assumption|]. split.
  - revert Hjumps Hstart. generalize (mounted engine).
    induction handlers as [|calls handlers IH]; intros w Hjumps Hin.
    + exists w. now split.
    + cbn [forallb] in Hjumps. apply andb_true_iff in Hjumps as [Hcalls Hjumps].
      destruct (render_in_range steps _ Hin) as [h Hrender].
      destruct (handler_returns steps _ h calls Hrender w) as (w1 & Hrun1 & _ & Hinv).
      destruct (IH w1 Hjumps (Hinv Hin Hcalls)) as (w' & Hrun & Hin').
      exists w'. rewrite session_cons, Hrender, Hrun1. now split.
  - intros c h w k Hrender.
    destruct (render_inv steps c h Hrender) as (_ & _ & _ & _ & _ & _ & Hset & _).
    eexists. split; [rewrite Hset; reflexivity | reflexivity].
Qed.

(** C6: from an interior index, a [goToNextStep] whose validation succeeds
    followed by a [goToPreviousStep] ends on the index it started from,
    whether the two calls are made from two renders or from one. *)
Theorem advance_retreat_roundtrip steps i step w :
  0 < i < steps_length steps - 1 ->
  stepState w = i ->
  steps_at steps i = Some step ->
  fst (trigger (fields step) (formState w)) = true ->
  (exists w',
      session trigger steps [[Advance]; [Retreat]] w = (Normal tt, w') /\
      stepState w' = i) /\
  (exists w',
      session trigger steps [[Advance; Retreat]] w = (Normal tt, w') /\
      stepState w' = i).
Proof.
  intros Hinterior Hstate Hat Hvalid.
  assert (in_range steps i) as Hin by (unfold in_range; lia).
  assert (in_range steps (i + 1)) as Hin1 by (unfold in_range; lia).
  destruct (render_in_range steps i Hin) as [h Hrender].
  destruct (render_in_range steps (i + 1) Hin1) as [h1 Hrender1].
  destruct (render_inv steps i h Hrender)
    as (step' & Hat' & _ & _ & _ & _ & _ & Hprev & Hnext).
  destruct (render_inv steps (i + 1) h1 Hrender1)
    as (_ & _ & _ & _ & _ & _ & _ & Hprev1 & _).
  assert (step' = step) as -> by congruence.
  assert (next_updater steps i = i + 1) as Hup.
  { rewrite next_updater_min by lia. lia. }
  assert (previous_updater (i + 1) = i) as Hdown.
  { rewrite previous_updater_max by lia. lia. }
  split; eexists.
  - rewrite session_cons, Hstate, Hrender, handler_cons. cbn [invoke].
    rewrite Hnext, Hvalid, Hstate, Hup. cbn [handler ret].
    rewrite session_cons. cbn [stepState]. rewrite Hrender1, handler_cons.
    cbn [invoke]. rewrite Hprev1. cbn [stepState handler ret session].
    rewrite Hdown. split; reflexivity.
  - rewrite session_cons, Hstate, Hrender, handler_cons. cbn [invoke].
    rewrite Hnext, Hvalid, Hstate, Hup, handler_cons. cbn [invoke].
    rewrite Hprev. cbn [stepState handler ret session].
    rewrite Hdown. split; reflexivity.
Qed.

Lemma handler_retreats_at_first steps c h n engine log :
  useMultiStepForm trigger steps c = Normal h ->
  handler h (repeat Retreat n) (mkWorld 0 engine log) =
  (Normal tt, mkWorld 0 engine log).
Proof.
  intros Hrender.
  destruct (render_inv steps c h Hrender) as (_ & _ & _ & _ & _ & _ & _ & Hprev & _).
  induction n as [|n IH]; [reflexivity|].
  cbn [repeat]. rewrite handler_cons. cbn [invoke]. rewrite Hprev. exact IH.
Qed.

Lemma all_valid_app log log' :
  all_valid (Path := Path) (log ++ log') = all_valid log && all_valid log'.
Proof. apply forallb_app. Qed.

Lemma steps_at_In steps i step :
  steps_at steps i = Some step -> In step steps.
Proof.
  unfold steps_at. destruct (i <? 0); [discriminate|]. apply nth_error_In.
Qed.

Section Accepting.

(** The validator accepts the fields of every step on every engine state
    of a set that [trigger] does not leave. *)
Variable accepted : Engine -> Prop.
Variable steps : list Step.
Hypothesis trigger_accepts :
  forall step e,
    In step steps -> accepted e ->
    fst (trigger (fields step) e) = true /\
    accepted (snd (trigger (fields step) e)).

Lemma handler_advances c h n :
  useMultiStepForm trigger steps c = Normal h ->
  forall w,
  in_range steps (stepState w) ->
  accepted (formState w) ->
  exists w' new,
    handler h (repeat Advance n) w = (Normal tt, w') /\
    triggerLog w' = triggerLog w ++ new /\
    length new = n /\
    all_valid new = true /\
    accepted (formState w') /\
    stepState w' = Z.min (stepState w + Z.of_nat n) (steps_length steps - 1).
Proof.
  intros Hrender.
  destruct (render_inv steps c h Hrender)
    as (step & Hat & _ & _ & _ & _ & _ & _ & Hnext).
  apply steps_at_In in Hat.
  induction n as [|n IH]; intros w Hin Hacc.
  - exists w, []. cbn [repeat handler ret]. rewrite app_nil_r.
    repeat split; try assumption. unfold in_range in Hin. lia.
  - cbn [repeat]. rewrite handler_cons. cbn [invoke]. rewrite Hnext.
    destruct (trigger_accepts step (formState w) Hat Hacc) as [Hvalid Hacc1].
    rewrite Hvalid.
    set (w1 := mkWorld _ _ _).
    assert (in_range steps (stepState w1)) as Hin1
      by (now apply next_updater_in_range).
    destruct (IH w1 Hin1 Hacc1) as (w' & new & Hrun & Hlog & Hlen & Hall & Hacc' & Hidx).
    exists w', ((fields step, true) :: new).
    split; [assumption|]. repeat split; try assumption.
    + rewrite Hlog. subst w1. cbn [triggerLog]. now rewrite <- app_assoc.
    + cbn [length]. now rewrite Hlen.
    + rewrite Hidx. subst w1. cbn [stepState].
      unfold in_range in Hin. rewrite next_updater_min; lia.
Qed.

Lemma session_advances ns :
  forall w,
  in_range steps (stepState w) ->
  accepted (formState w) ->
  exists w' new,
    session trigger steps (map (repeat Advance) ns) w = (Normal tt, w') /\
    triggerLog w' = triggerLog w ++ new /\
    length new = list_sum ns /\
    all_valid new = true /\
    stepState w' =
      Z.min (stepState w + Z.of_nat (list_sum ns)) (steps_length steps - 1).
Proof.
  induction ns as [|n ns IH]; intros w Hin Hacc.
  - exists w, []. cbn [map session ret]. change (list_sum []) with 0%nat.
    rewrite app_nil_r.
    repeat split. unfold in_range in Hin. lia.
  - destruct (render_in_range steps _ Hin) as [h Hrender].
    destruct (handler_advances _ h n Hrender w Hin Hacc)
      as (w1 & new1 & Hrun1 & Hlog1 & Hlen1 & Hall1 & Hacc1 & Hidx1).
    assert (in_range steps (stepState w1)) as Hin1.
    { unfold in_range in *. lia. }
    destruct (IH w1 Hin1 Hacc1) as (w' & new & Hrun & Hlog & Hlen & Hall & Hidx).
    exists w', (new1 ++ new). cbn [map]. rewrite session_cons, Hrender, Hrun1.
    split; [assumption|]. repeat split.
    + now rewrite Hlog, Hlog1, app_assoc.
    + rewrite length_app, Hlen1, Hlen. reflexivity.
    + now rewrite all_valid_app, Hall1, Hall.
    + rewrite Hidx, Hidx1.
      change (list_sum (n :: ns)) with (n + list_sum ns)%nat.
      unfold in_range in Hin. lia.
Qed.

End Accepting.


End Navigation.

(** * The properties on the concrete form *)

Module Examples.

Import Demo.

Local Abbreviation render := (useMultiStepForm Demo.trigger).
Local Abbreviation fresh := (mount (Path := Field)).

(** The scenario of the spec: with an empty name the first
    [goToNextStep] stays on step 0 and records the error; once the form is
    filled in, it moves to step 1, the last one. *)
Example scenario_name_then_age :
  session Demo.trigger two_steps [[Advance]] (fresh initialValues) =
    (Normal tt, mkWorld 0 (mkForm 0 0 [name]) [([name], false)]) /\
  session Demo.trigger two_steps [[Advance]] (fresh filled) =
    (Normal tt, mkWorld 1 filled [([name], true)]) /\
  (exists h, render two_steps 1 = Normal h /\ isLastStep h = true).
Proof.
  repeat split. eexists. split; reflexivity.
Qed.

(** C1 at a concrete input: two steps, the first one valid. *)
Lemma advance_success_witness :
  exists h,
    render two_steps 0 = Normal h /\
    exists w',
      goToNextStep h (fresh filled) = (Normal tt, w') /\
      (isSafeInteger (stepState (fresh filled)) ->
       stepState (fresh filled) <= steps_length two_steps - 1 ->
       stepState w' =
       Z.min (stepState (fresh filled) + 1) (steps_length two_steps - 1)) /\
      (steps_length two_steps - 1 < stepState (fresh filled) ->
       stepState w' = stepState (fresh filled)).
Proof.
  eexists. split; [reflexivity|].
  apply (advance_success Demo.trigger two_steps 0 _ (mkStep NameStep [name]));
    reflexivity.
Defined.

(** C1 as stated fails beyond the last step: [setCurrentStepIndex(5)]
    followed by [goToNextStep()] on the object of the same render validates
    step 0 successfully and leaves the index at 5, not at [min 6 1]. *)
Lemma advance_beyond_last_step :
  exists h w1 w',
    render two_steps 0 = Normal h /\
    handler h [JumpTo 5] (fresh filled) = (Normal tt, w1) /\
    goToNextStep h w1 = (Normal tt, w') /\
    triggerLog w' = [([name], true)] /\
    stepState w1 = 5 /\
    stepState w' = 5 /\
    stepState w' <> Z.min (stepState w1 + 1) (steps_length two_steps - 1).
Proof.
  do 3 eexists. repeat split; try reflexivity. discriminate.
Qed.

(** C2 at a concrete input: the name is too short. *)
Lemma advance_failure_witness :
  exists h,
    render two_steps 0 = Normal h /\
    fst (Demo.trigger [name] initialValues) = false /\
    exists w',
      goToNextStep h (fresh initialValues) = (Normal tt, w') /\
      stepState w' = stepState (fresh initialValues).
Proof.
  eexists. split; [reflexivity|]. split; [reflexivity|].
  apply (advance_failure_keeps_index Demo.trigger two_steps 0 _
           (mkStep NameStep [name]));
    reflexivity.
Defined.

(** C3 as stated fails for the override: [setCurrentStepIndex(5)] on a form
    of two steps returns normally and leaves the index out of range. *)
Lemma jump_leaves_range :
  exists w',
    session Demo.trigger two_steps [[JumpTo 5]] (fresh initialValues) =
      (Normal tt, w') /\
    stepState w' = 5 /\
    ~ in_range two_steps (stepState w').
Proof.
  eexists. repeat split. unfold in_range. cbn. lia.
Qed.

(** C3 at a concrete input: a session that fails a validation, goes
    forward, jumps to the last step and comes back. *)
Lemma index_invariant_witness :
  1 <= steps_length three_steps /\
  in_range three_steps (stepState (fresh initialValues)) /\
  (exists w',
      session Demo.trigger three_steps
        [[Advance]; [JumpTo 2; Retreat]; [Advance; Advance]; [Retreat]]
        (fresh initialValues) = (Normal tt, w') /\
      in_range three_steps (stepState w')) /\
  (forall c h w k,
      render three_steps c = Normal h ->
      exists w',
        setCurrentStepIndex h (Value k) w = (Normal tt, w') /\
        stepState w' = k).
Proof.
  split; [vm_compute; discriminate|].
  apply (index_invariant Demo.trigger three_steps initialValues
           [[Advance]; [JumpTo 2; Retreat]; [Advance; Advance]; [Retreat]]).
  - vm_compute; discriminate.
  - reflexivity.
Defined.



(** C5 at a concrete input. *)
Lemma retreat_effect_witness :
  exists h,
    render two_steps 1 = Normal h /\
    exists w',
      goToPreviousStep h (mkWorld 1 filled []) = (Normal tt, w') /\
      formState w' = filled /\
      triggerLog w' = [] /\
      (isSafeInteger 1 -> 0 <= 1 -> stepState w' = Z.max (1 - 1) 0) /\
      (1 < 0 -> stepState w' = 1).
Proof.
  eexists. split; [reflexivity|].
  apply (retreat_effect Demo.trigger two_steps 1 _ (mkWorld 1 filled [])).
  reflexivity.
Defined.

(** C5 as stated fails below 0: [setCurrentStepIndex(-3)] followed by
    [goToPreviousStep()] leaves the index at -3, not at [max (-4) 0]. *)
Lemma retreat_below_first_step :
  exists h w1 w',
    render two_steps 0 = Normal h /\
    handler h [JumpTo (-3)] (fresh initialValues) = (Normal tt, w1) /\
    goToPreviousStep h w1 = (Normal tt, w') /\
    stepState w1 = -3 /\
    stepState w' = -3 /\
    stepState w' <> Z.max (stepState w1 - 1) 0.
Proof.
  do 3 eexists. repeat split; try reflexivity. discriminate.
Qed.

(** C6 at a concrete input: the middle one of three steps. *)
Lemma advance_retreat_roundtrip_witness :
  0 < 1 < steps_length three_steps - 1 /\
  fst (Demo.trigger [age] filled) = true /\
  (exists w',
      session Demo.trigger three_steps [[Advance]; [Retreat]]
        (mkWorld 1 filled []) = (Normal tt, w') /\
      stepState w' = 1) /\
  (exists w',
      session Demo.trigger three_steps [[Advance; Retreat]]
        (mkWorld 1 filled []) = (Normal tt, w') /\
      stepState w' = 1).
Proof.
  split; [vm_compute; split; reflexivity|]. split; [reflexivity|].
  apply (advance_retreat_roundtrip Demo.trigger three_steps 1
           (mkStep AgeStep [age]) (mkWorld 1 filled []));
    try reflexivity.
  vm_compute; split; reflexivity.
Defined.


(** The run of that session: its four validations all succeed (the two
    calls of the second handler both validate the step their render
    showed) and it ends on the last step. *)
Example clamping_session_trace :
  session Demo.trigger three_steps (map (repeat Advance) [1; 2; 1]%nat)
    (fresh filled) =
  (Normal tt,
   mkWorld 2 filled [([name], true); ([age], true); ([age], true); ([], true)]).
Proof. reflexivity. Qed.

(** C8 at a concrete input: the second of two steps. *)
Lemma boundary_flags_witness :
  exists h,
    render two_steps 1 = Normal h /\
    currentStepIndex h = 1 /\
    isFirstStep h = (1 =? 0) /\
    isLastStep h = (1 =? steps_length two_steps - 1).
Proof.
  eexists. split; [reflexivity|].
  apply (boundary_flags Demo.trigger two_steps 1). reflexivity.
Defined.

(** C9 at the spec's scenario: three steps, index 1, [setCurrentStepIndex(2)]
    puts the index at 2 and the record of validations stays empty. *)
Lemma retreat_jump_frame_witness :
  exists h,
    render three_steps 1 = Normal h /\
    goToPreviousStep h (mkWorld 1 filled []) =
      (Normal tt, mkWorld (previous_updater 1) filled []) /\
    setCurrentStepIndex h (Value 2) (mkWorld 1 filled []) =
      (Normal tt, mkWorld 2 filled []).
Proof.
  eexists. split; [reflexivity|].
  apply (retreat_jump_frame Demo.trigger three_steps 1 _ (mkWorld 1 filled []) 2).
  reflexivity.
Defined.

(** C10 at concrete inputs: the last of three steps is found, index 7 of
    two steps is not. *)
Lemma unchecked_step_lookup_witness :
  (exists step h,
      steps_at three_steps 2 = Some step /\
      render three_steps 2 = Normal h /\
      CurrentStep h = component step /\
      forall w, exists w',
        goToNextStep h w = (Normal tt, w') /\
        exists isValid, triggerLog w' = triggerLog w ++ [(fields step, isValid)]) /\
  (steps_at two_steps 7 = None /\ render two_steps 7 = Threw TypeError).
Proof.
  split.
  - apply (proj1 (unchecked_step_lookup Demo.trigger three_steps 2)).
    vm_compute. split; [discriminate | reflexivity].
  - apply (proj1 (proj2 (unchecked_step_lookup Demo.trigger two_steps 7))).
    unfold in_range. vm_compute. intros [_ Hlt]. discriminate.
Defined.

End Examples.

(** * Further properties of the hook *)

Section Composition.

Context {Component Path Engine : Type}.
Variable trigger : list Path -> Engine -> bool * Engine.

Local Abbreviation Step := (FormStep Component Path).
Local Abbreviation Result := (HookResult Component Path Engine).
Local Abbreviation Store := (World Path Engine).
Local Abbreviation mounted := (mount (Path := Path)).

Implicit Types (steps : list Step) (h : Result) (w : Store) (i c k : Z).

(** ** The boundary flags *)

(** X1: on the object of a render, [isFirstStep] and [isLastStep] are both
    true exactly when the form has a single step. *)
Theorem flags_both_iff_single_step steps c h :
  useMultiStepForm trigger steps c = Normal h ->
  (isFirstStep h && isLastStep h = true <-> steps_length steps = 1).
Proof.
  intros Hrender.
  destruct (render_inv trigger steps c h Hrender)
    as (step & Hat & _ & _ & Hfirst & Hlast & _).
  apply steps_at_Some_in_range in Hat. unfold in_range in Hat.
  rewrite Hfirst, Hlast, andb_true_iff, Z.leb_le, Z.geb_le. lia.
Qed.

(** X2: the flags of a render tell what its callbacks do to the index that
    render showed: [goToPreviousStep] leaves it alone when [isFirstStep] is
    set and takes one off otherwise; [goToNextStep] leaves it alone when
    [isLastStep] is set or the validation fails and adds one otherwise. *)
Theorem flags_tell_the_moves steps c h step w :
  useMultiStepForm trigger steps c = Normal h ->
  steps_at steps c = Some step ->
  stepState w = c ->
  exists w1 w2,
    goToPreviousStep h w = (Normal tt, w1) /\
    stepState w1 = (if isFirstStep h then c else c - 1) /\
    goToNextStep h w = (Normal tt, w2) /\
    stepState w2 =
      (if isLastStep h || negb (fst (trigger (fields step) (formState w)))
       then c else c + 1).
Proof.
  intros Hrender Hat Hstate.
  destruct (render_inv trigger steps c h Hrender)
    as (step' & Hat' & _ & _ & Hfirst & Hlast & _ & Hprev & Hnext).
  assert (step' = step) as -> by congruence.
  do 2 eexists. split; [apply Hprev|]. split; [|split; [apply Hnext|]].
  - cbn [stepState]. rewrite Hfirst, Hstate. reflexivity.
  - cbn [stepState]. rewrite Hlast, Hstate. unfold next_updater.
    destruct (fst (trigger (fields step) (formState w)));
      destruct (c >=? steps_length steps - 1); reflexivity.
Qed.

(** X3: whatever safe integer the state cell holds, in range or not, one
    [goToNextStep] never moves the index back and never by more than one
    step, and one [goToPreviousStep] never moves it forward and never by
    more than one step. *)
Theorem one_call_one_step steps c h w :
  useMultiStepForm trigger steps c = Normal h ->
  isSafeInteger (stepState w) ->
  exists w1 w2,
    goToNextStep h w = (Normal tt, w1) /\
    stepState w <= stepState w1 <= stepState w + 1 /\
    goToPreviousStep h w = (Normal tt, w2) /\
    stepState w - 1 <= stepState w2 <= stepState w.
Proof.
  intros Hrender _.
  destruct (render_inv trigger steps c h Hrender)
    as (step & _ & _ & _ & _ & _ & _ & Hprev & Hnext).
  do 2 eexists. split; [apply Hnext|]. split; [|split; [apply Hprev|]].
  - cbn [stepState]. unfold next_updater.
    destruct (fst (trigger (fields step) (formState w)));
      destruct (stepState w >=? steps_length steps - 1); lia.
  - cbn [stepState]. unfold previous_updater.
    destruct (stepState w <=? 0); lia.
Qed.

(** ** Calls on the object of one render *)

(** X4: every validation a handler causes is scoped to the fields of the
    step its render showed, however far the calls before it moved the
    index: the callback keeps the [currentStepIndex] it was created with. *)
Theorem handler_validates_rendered_step steps c h step calls w :
  useMultiStepForm trigger steps c = Normal h ->
  steps_at steps c = Some step ->
  exists w' new,
    handler h calls w = (Normal tt, w') /\
    triggerLog w' = triggerLog w ++ new /\
    length new = count_advance calls /\
    Forall (fun entry => fst entry = fields step) new.
Proof.
  intros Hrender Hat.
  destruct (render_inv trigger steps c h Hrender)
    as (step' & Hat' & _ & _ & _ & _ & Hset & Hprev & Hnext).
  assert (step' = step) as -> by congruence.
  revert w. induction calls as [|call calls IH]; intros w.
  - exists w, []. rewrite app_nil_r. repeat split. constructor.
  - rewrite handler_cons. destruct call as [| |index]; cbn [invoke].
    + rewrite Hnext.
      set (w1 := mkWorld _ _ _).
      destruct (IH w1) as (w' & new & Hrun & Hlog & Hlen & Hall).
      exists w', ((fields step, fst (trigger (fields step) (formState w))) :: new).
      split; [assumption|]. split; [|split].
      * rewrite Hlog. subst w1. cbn [triggerLog]. now rewrite <- app_assoc.
      * change (Advance :: calls) with ([Advance] ++ calls).
        rewrite count_advance_app. cbn. now rewrite Hlen.
      * constructor; [reflexivity | assumption].
    + rewrite Hprev.
      set (w1 := mkWorld _ _ _).
      destruct (IH w1) as (w' & new & Hrun & Hlog & Hlen & Hall).
      exists w', new. repeat split; assumption.
    + rewrite Hset. cbn [setState].
      set (w1 := mkWorld _ _ _).
      destruct (IH w1) as (w' & new & Hrun & Hlog & Hlen & Hall).
      exists w', new. repeat split; assumption.
Qed.

(** X5: [n] calls of [goToPreviousStep] take a non-negative safe integer
    [i] to [max (i - n) 0], also an index beyond the last step, and leave
    the form engine and the record of validations as they were. *)
Theorem retreats_compose steps c h n w :
  useMultiStepForm trigger steps c = Normal h ->
  0 <= stepState w <= MAX_SAFE_INTEGER ->
  handler h (repeat Retreat n) w =
  (Normal tt,
   mkWorld (Z.max (stepState w - Z.of_nat n) 0) (formState w) (triggerLog w)).
Proof.
  intros Hrender.
  destruct (render_inv trigger steps c h Hrender)
    as (_ & _ & _ & _ & _ & _ & _ & Hprev & _).
  revert w. induction n as [|n IH]; intros [i engine log] Hpos;
    cbn [stepState] in Hpos.
  - cbn [repeat handler ret stepState formState triggerLog].
    replace (Z.max (i - Z.of_nat 0) 0) with i by lia. reflexivity.
  - cbn [repeat]. rewrite handler_cons. cbn [invoke]. rewrite Hprev.
    cbn [stepState formState triggerLog].
    assert (0 <= previous_updater i <= MAX_SAFE_INTEGER) as Hpos'.
    { unfold previous_updater. destruct (i <=? 0) eqn:Hfirst; lia. }
    rewrite IH by exact Hpos'. cbn [stepState formState triggerLog].
    replace (Z.max (previous_updater i - Z.of_nat n) 0)
      with (Z.max (i - Z.of_nat (S n)) 0); [reflexivity|].
    unfold previous_updater. destruct (i <=? 0) eqn:Hfirst; lia.
Qed.

(** ** Whole sessions *)

Lemma handler_single h call w :
  handler h [call] w =
  match invoke h call w with
  | (Normal _, w') => (Normal tt, w')
  | (Threw e, w') => (Threw e, w')
  end.
Proof. reflexivity. Qed.

Lemma validated_before_grows steps i log new :
  validated_before steps i log -> validated_before steps i (log ++ new).
Proof.
  intros Hlog j Hj. destruct (Hlog j Hj) as (step & Hat & Hin).
  exists step. split; [assumption|]. apply in_or_app. now left.
Qed.

Lemma validated_before_shrinks steps i i' log :
  i' <= i -> validated_before steps i log -> validated_before steps i' log.
Proof. intros Hle Hlog j Hj. apply Hlog. lia. Qed.

Lemma gated_session steps calls :
  no_jump calls = true ->
  forall w,
  in_range steps (stepState w) ->
  validated_before steps (stepState w) (triggerLog w) ->
  exists w',
    session trigger steps (one_by_one calls) w = (Normal tt, w') /\
    in_range steps (stepState w') /\
    validated_before steps (stepState w') (triggerLog w').
Proof.
  induction calls as [|call calls IH]; intros Hcalls w Hin Hlog.
  - exists w. split; [reflexivity|]. split; assumption.
  - cbn [no_jump forallb] in Hcalls. apply andb_true_iff in Hcalls as [Hcall Hcalls].
    destruct (render_in_range trigger steps _ Hin) as [h Hrender].
    destruct (render_inv trigger steps _ h Hrender)
      as (step & Hat & _ & _ & _ & _ & _ & Hprev & Hnext).
    cbn [one_by_one map]. rewrite session_cons, Hrender, handler_single.
    destruct call as [| |index]; [| |discriminate]; cbn [invoke].
    + rewrite Hnext. apply (IH Hcalls); cbn [stepState triggerLog].
      * destruct (fst (trigger (fields step) (formState w)));
          [now apply next_updater_in_range | assumption].
      * destruct (fst (trigger (fields step) (formState w))) eqn:Hvalid.
        -- intros j Hj.
           destruct (Z_lt_dec j (stepState w)) as [Hbefore|Hhere].
           ++ apply validated_before_grows with (new := [(fields step, true)]) in Hlog.
              apply Hlog. lia.
           ++ assert (j = stepState w) as ->.
              { unfold next_updater in Hj.
                destruct (stepState w >=? steps_length steps - 1); lia. }
              exists step. split; [assumption|].
              apply in_or_app. right. now left.
        -- now apply validated_before_grows.
    + rewrite Hprev. apply (IH Hcalls); cbn [stepState triggerLog].
      * now apply previous_updater_in_range.
      * apply validated_before_shrinks with (i := stepState w); [|assumption].
        unfold previous_updater. destruct (stepState w <=? 0); lia.
Qed.

(** X6: when every call gets its own render and none goes through
    [setCurrentStepIndex], a session from a freshly mounted form with at
    least one step always completes, and the fields of every step before
    the one it ends on have a successful validation on record: no step is
    passed without its fields validating. *)
Theorem steps_passed_were_validated steps engine calls :
  1 <= steps_length steps ->
  no_jump calls = true ->
  exists w',
    session trigger steps (one_by_one calls) (mounted engine) = (Normal tt, w') /\
    in_range steps (stepState w') /\
    validated_before steps (stepState w') (triggerLog w').
Proof.
  intros Hne Hcalls. apply (gated_session steps calls Hcalls); cbn.
  - unfold in_range. lia.
  - intros j Hj. lia.
Qed.

(** X8: from any index but the first, a [goToPreviousStep] followed, after
    the re-render, by a [goToNextStep] whose validation (of the step
    before) succeeds ends on the index it started from. *)
Theorem retreat_advance_roundtrip steps i step w :
  0 < i <= steps_length steps - 1 ->
  stepState w = i ->
  steps_at steps (i - 1) = Some step ->
  fst (trigger (fields step) (formState w)) = true ->
  exists w',
    session trigger steps [[Retreat]; [Advance]] w = (Normal tt, w') /\
    stepState w' = i /\
    triggerLog w' = triggerLog w ++ [(fields step, true)].
Proof.
  intros Hi Hstate Hat Hvalid.
  assert (in_range steps i) as Hin by (unfold in_range; lia).
  destruct (render_in_range trigger steps i Hin) as [h Hrender].
  destruct (render_inv trigger steps i h Hrender)
    as (_ & _ & _ & _ & _ & _ & _ & Hprev & _).
  assert (in_range steps (i - 1)) as Hin1 by (unfold in_range; lia).
  destruct (render_in_range trigger steps (i - 1) Hin1) as [h1 Hrender1].
  destruct (render_inv trigger steps (i - 1) h1 Hrender1)
    as (step' & Hat' & _ & _ & _ & _ & _ & _ & Hnext).
  assert (step' = step) as -> by congruence.
  assert (previous_updater i = i - 1) as Hdown.
  { unfold previous_updater. destruct (i <=? 0) eqn:Hfirst; lia. }
  assert (next_updater steps (i - 1) = i) as Hup.
  { unfold next_updater. destruct (i - 1 >=? steps_length steps - 1) eqn:Hlast; lia. }
  eexists.
  rewrite session_cons, Hstate, Hrender, handler_single. cbn [invoke].
  rewrite Hprev, Hstate, Hdown, session_cons. cbn [stepState].
  rewrite Hrender1, handler_single. cbn [invoke].
  rewrite Hnext. cbn [stepState formState triggerLog session ret].
  rewrite Hvalid, Hup. repeat split.
Qed.

(** X9: a clamped call is not undone.  On the last step of a form with at
    least two steps, [goToNextStep] followed by [goToPreviousStep] ends one
    step before the last, whatever the validation answers. *)
Theorem advance_retreat_at_last_step steps w :
  2 <= steps_length steps ->
  stepState w = steps_length steps - 1 ->
  exists w',
    session trigger steps [[Advance]; [Retreat]] w = (Normal tt, w') /\
    stepState w' = steps_length steps - 2.
Proof.
  intros Hlen Hstate.
  assert (in_range steps (stepState w)) as Hin by (unfold in_range; lia).
  destruct (render_in_range trigger steps _ Hin) as [h Hrender].
  destruct (render_inv trigger steps _ h Hrender)
    as (step & _ & _ & _ & _ & _ & _ & Hprev & Hnext).
  assert (next_updater steps (stepState w) = stepState w) as Hup.
  { unfold next_updater.
    destruct (stepState w >=? steps_length steps - 1) eqn:Hlast; lia. }
  assert (previous_updater (stepState w) = steps_length steps - 2) as Hdown.
  { unfold previous_updater. destruct (stepState w <=? 0) eqn:Hfirst; lia. }
  eexists.
  rewrite session_cons, Hrender, handler_single. cbn [invoke].
  rewrite Hnext, Hup, session_cons. cbn [stepState].
  replace (if fst (trigger (fields step) (formState w))
           then stepState w else stepState w) with (stepState w)
    by (now destruct (fst (trigger (fields step) (formState w)))).
  rewrite Hrender, handler_single. cbn [invoke].
  rewrite Hprev. cbn [stepState session ret]. rewrite Hdown. split; reflexivity.
Qed.

Lemma handler_without_advance steps c h calls :
  useMultiStepForm trigger steps c = Normal h ->
  count_advance calls = 0%nat ->
  forall w,
  exists w',
    handler h calls w = (Normal tt, w') /\
    formState w' = formState w /\
    triggerLog w' = triggerLog w.
Proof.
  intros Hrender.
  destruct (render_inv trigger steps c h Hrender)
    as (_ & _ & _ & _ & _ & _ & Hset & Hprev & _).
  induction calls as [|call calls IH]; intros Hnone w.
  - exists w. repeat split.
  - rewrite handler_cons.
    destruct call as [| |index]; [discriminate| |]; cbn [invoke].
    + rewrite Hprev. destruct (IH Hnone (mkWorld (previous_updater (stepState w))
                                           (formState w) (triggerLog w)))
        as (w' & Hrun & Hform & Hlog).
      exists w'. repeat split; assumption.
    + rewrite Hset. cbn [setState].
      destruct (IH Hnone (mkWorld index (formState w) (triggerLog w)))
        as (w' & Hrun & Hform & Hlog).
      exists w'. repeat split; assumption.
Qed.

(** X10: a session without a [goToNextStep] call never reaches the form
    engine: whether it completes or ends on a throwing render, the engine
    state and the record of validations are the ones it started with. *)
Theorem session_without_advance_frame steps handlers w r w' :
  count_advance (concat handlers) = 0%nat ->
  session trigger steps handlers w = (r, w') ->
  formState w' = formState w /\ triggerLog w' = triggerLog w.
Proof.
  revert w. induction handlers as [|calls handlers IH]; intros w Hnone Hrun.
  - injection Hrun as _ <-. split; reflexivity.
  - cbn [concat] in Hnone. rewrite count_advance_app in Hnone.
    rewrite session_cons in Hrun.
    destruct (useMultiStepForm trigger steps (stepState w)) as [h|e0] eqn:Hrender.
    + destruct (handler_without_advance steps _ h calls Hrender ltac:(lia) w)
        as (w1 & Hcalls & Hform & Hlog).
      rewrite Hcalls in Hrun.
      destruct (IH w1 ltac:(lia) Hrun) as [Hform' Hlog'].
      split; congruence.
    + injection Hrun as _ <-. split; reflexivity.
Qed.

End Composition.

(** * The further properties on the concrete form *)

Module MoreExamples.

Import Demo.

Local Abbreviation render := (useMultiStepForm Demo.trigger).
Local Abbreviation fresh := (mount (Path := Field)).

(** X1 on a form of one step. *)
Lemma flags_both_iff_single_step_witness :
  exists h,
    render [mkStep NameStep [name]] 0 = Normal h /\
    (isFirstStep h && isLastStep h = true <->
     steps_length [mkStep NameStep [name]] = 1).
Proof.
  eexists. split; [reflexivity|].
  apply (flags_both_iff_single_step Demo.trigger [mkStep NameStep [name]] 0).
  reflexivity.
Defined.

(** X2 on the last of two steps. *)
Lemma flags_tell_the_moves_witness :
  exists h,
    render two_steps 1 = Normal h /\
    exists w1 w2,
      goToPreviousStep h (mkWorld 1 filled []) = (Normal tt, w1) /\
      stepState w1 = (if isFirstStep h then 1 else 1 - 1) /\
      goToNextStep h (mkWorld 1 filled []) = (Normal tt, w2) /\
      stepState w2 =
        (if isLastStep h || negb (fst (Demo.trigger [age] filled))
         then 1 else 1 + 1).
Proof.
  eexists. split; [reflexivity|].
  apply (flags_tell_the_moves Demo.trigger two_steps 1 _
           (mkStep AgeStep [age]) (mkWorld 1 filled []));
    reflexivity.
Defined.

(** X3 with the state cell at 7, beyond the two steps. *)
Lemma one_call_one_step_witness :
  exists h,
    render two_steps 0 = Normal h /\
    isSafeInteger 7 /\
    exists w1 w2,
      goToNextStep h (mkWorld 7 filled []) = (Normal tt, w1) /\
      7 <= stepState w1 <= 7 + 1 /\
      goToPreviousStep h (mkWorld 7 filled []) = (Normal tt, w2) /\
      7 - 1 <= stepState w2 <= 7.
Proof.
  assert (isSafeInteger 7) as Hsafe.
  { unfold isSafeInteger. vm_compute. split; discriminate. }
  eexists. split; [reflexivity|]. split; [exact Hsafe|].
  apply (one_call_one_step Demo.trigger two_steps 0 _ (mkWorld 7 filled []));
    [reflexivity | exact Hsafe].
Defined.

(** X4 on three steps: the second [goToNextStep] of the handler validates
    the name again, with the index already on the age step. *)
Lemma handler_validates_rendered_step_witness :
  exists h,
    render three_steps 0 = Normal h /\
    exists w' new,
      handler h [Advance; Advance] (fresh filled) = (Normal tt, w') /\
      triggerLog w' = triggerLog (fresh filled) ++ new /\
      length new = count_advance [Advance; Advance] /\
      Forall (fun entry => fst entry = [name]) new.
Proof.
  eexists. split; [reflexivity|].
  apply (handler_validates_rendered_step Demo.trigger three_steps 0 _
           (mkStep NameStep [name]) [Advance; Advance] (fresh filled));
    reflexivity.
Defined.

(** That handler ends on the last step with the age never validated. *)
Example double_advance_skips_a_validation :
  exists h,
    render three_steps 0 = Normal h /\
    handler h [Advance; Advance] (fresh (mkForm 2 0 [])) =
      (Normal tt,
       mkWorld 2 (mkForm 2 0 []) [([name], true); ([name], true)]).
Proof. eexists. split; reflexivity. Qed.

(** X5 from index 5 on a form of two steps. *)
Lemma retreats_compose_witness :
  exists h,
    render two_steps 0 = Normal h /\
    handler h (repeat Retreat 3) (mkWorld 5 filled []) =
      (Normal tt, mkWorld (Z.max (5 - Z.of_nat 3) 0) filled []).
Proof.
  eexists. split; [reflexivity|].
  apply (retreats_compose Demo.trigger two_steps 0 _ 3 (mkWorld 5 filled [])).
  - reflexivity.
  - vm_compute. split; discriminate.
Defined.

(** X6 on three steps. *)
Lemma steps_passed_were_validated_witness :
  1 <= steps_length three_steps /\
  no_jump [Advance; Advance; Retreat; Advance] = true /\
  exists w',
    session Demo.trigger three_steps
      (one_by_one [Advance; Advance; Retreat; Advance]) (fresh filled) =
      (Normal tt, w') /\
    in_range three_steps (stepState w') /\
    validated_before three_steps (stepState w') (triggerLog w').
Proof.
  split; [vm_compute; discriminate|]. split; [reflexivity|].
  apply (steps_passed_were_validated Demo.trigger three_steps filled
           [Advance; Advance; Retreat; Advance]).
  - vm_compute; discriminate.
  - reflexivity.
Defined.

(** X8 from the last of three steps. *)
Lemma retreat_advance_roundtrip_witness :
  0 < 2 <= steps_length three_steps - 1 /\
  fst (Demo.trigger [age] filled) = true /\
  exists w',
    session Demo.trigger three_steps [[Retreat]; [Advance]]
      (mkWorld 2 filled []) = (Normal tt, w') /\
    stepState w' = 2 /\
    triggerLog w' = [] ++ [([age], true)].
Proof.
  split; [vm_compute; split; [reflexivity | discriminate]|].
  split; [reflexivity|].
  apply (retreat_advance_roundtrip Demo.trigger three_steps 2
           (mkStep AgeStep [age]) (mkWorld 2 filled []));
    try reflexivity.
  vm_compute; split; [reflexivity | discriminate].
Defined.

(** X9 on three steps. *)
Lemma advance_retreat_at_last_step_witness :
  2 <= steps_length three_steps /\
  exists w',
    session Demo.trigger three_steps [[Advance]; [Retreat]]
      (mkWorld 2 filled []) = (Normal tt, w') /\
    stepState w' = steps_length three_steps - 2.
Proof.
  split; [vm_compute; discriminate|].
  apply (advance_retreat_at_last_step Demo.trigger three_steps (mkWorld 2 filled [])).
  - vm_compute; discriminate.
  - reflexivity.
Defined.

(** X10 on a session that jumps and retreats. *)
Lemma session_without_advance_frame_witness :
  count_advance (concat [[JumpTo 1; Retreat]; [Retreat]; [JumpTo 1]]) = 0%nat /\
  session Demo.trigger two_steps [[JumpTo 1; Retreat]; [Retreat]; [JumpTo 1]]
    (fresh initialValues) = (Normal tt, mkWorld 1 initialValues []) /\
  formState (mkWorld (Path := Field) 1 initialValues []) =
    formState (fresh initialValues) /\
  triggerLog (mkWorld 1 initialValues []) = triggerLog (fresh initialValues).
Proof.
  split; [reflexivity|]. split; [reflexivity|].
  apply (session_without_advance_frame Demo.trigger two_steps
           [[JumpTo 1; Retreat]; [Retreat]; [JumpTo 1]]
           (fresh initialValues) (Normal tt) (mkWorld 1 initialValues []));
    reflexivity.
Defined.

End MoreExamples.
